(** * Spherical circle patches (wcsaxes/patches.py)

    A shallow embedding of [SphericalCircle], [_rotate_polygon] and
    [_transform_cartesian], with the angle arithmetic carried out on exact
    real numbers.  Arrays are lists, Python integers are [Z], a call that
    raises is a [ValueError] result. *)

From Stdlib Require Import Reals Lra Lia ZArith List Bool.
Import ListNotations.

Local Open Scope R_scope.

(** ** Results of calls that may raise *)

Inductive result (A : Type) : Type :=
| Return (a : A)
| ValueError.

Arguments Return {A} a.
Arguments ValueError {A}.

Definition bind {A B : Type} (r : result A) (k : A -> result B) : result B :=
  match r with
  | Return a => k a
  | ValueError => ValueError
  end.

Notation "x <- r ;; k" := (bind r (fun x => k))
  (at level 61, r at next level, right associativity).

(** ** Angular units and quantities *)

Module Units.

(** Modelled from the spec: the units library (astropy.units) is not part of
    the sources at hand; an angle is a magnitude tagged with radian or
    degree, and a unit is a scale factor. *)
Inductive AngleUnit : Type := radian | degree.

(** Radians per one unit. *)
Definition unit_scale (u : AngleUnit) : R :=
  match u with
  | radian => 1
  | degree => PI / 180
  end.

Record Quantity : Type := mkQuantity { value : R; unit : AngleUnit }.

(** [q.to(u)]: the same angle expressed in unit [u]. *)
Definition to (q : Quantity) (u : AngleUnit) : Quantity :=
  mkQuantity (value q * (unit_scale (unit q) / unit_scale u)) u.

(** [q1 - q2]: the result carries the unit of the left operand. *)
Definition qsub (q1 q2 : Quantity) : Quantity :=
  mkQuantity (value q1 - value (to q2 (unit q1))) (unit q1).

(** [-q] *)
Definition qneg (q : Quantity) : Quantity :=
  mkQuantity (- value q) (unit q).

(** An array of magnitudes sharing one unit. *)
Record QuantityArray : Type := mkQArray { values : list R; aunit : AngleUnit }.

Definition array_to (a : QuantityArray) (u : AngleUnit) : QuantityArray :=
  mkQArray (map (fun x => x * (unit_scale (aunit a) / unit_scale u)) (values a)) u.

(** [np.sin] and [np.cos] of a quantity work on its radian magnitude. *)
Definition qsin (q : Quantity) : R := sin (value (to q radian)).
Definition qcos (q : Quantity) : R := cos (value (to q radian)).

End Units.
Import Units.

(** ** The numpy array routines used by the constructor *)

Module Np.

(** [y[-1] = stop] *)
Definition set_last (y : list R) (stop : R) : list R :=
  removelast y ++ [stop].

(** [np.linspace(start, stop, num)] with the endpoint included: [num]
    samples [k * step + start], the last one overwritten by [stop]; a
    negative [num] raises. *)
Definition linspace (start stop : R) (num : Z) : result (list R) :=
  if (num <? 0)%Z then ValueError
  else
    let n := Z.to_nat num in
    let div := (n - 1)%nat in
    let delta := stop - start in
    let y :=
      if (0 <? div)%nat
      then map (fun k => INR k * (delta / INR div) + start) (seq 0 n)
      else map (fun k => INR k * delta + start) (seq 0 n) in
    Return (if (1 <? num)%Z then set_last y stop else y).

(** [a[:-1]] *)
Definition drop_last (a : list R) : list R := removelast a.

(** [np.repeat(x, repeats)] for a scalar [x]; a negative count raises. *)
Definition repeat (x : R) (repeats : Z) : result (list R) :=
  if (repeats <? 0)%Z then ValueError
  else Return (List.repeat x (Z.to_nat repeats)).

(** [np.arctan2(y, x)] *)
Definition arctan2 (y x : R) : R :=
  if Rlt_dec 0 x then atan (y / x)
  else if Rlt_dec x 0 then
    if Rle_dec 0 y then atan (y / x) + PI else atan (y / x) - PI
  else if Rlt_dec 0 y then PI / 2
  else if Rlt_dec y 0 then - (PI / 2)
  else 0.

(** [np.hypot(x, y)] *)
Definition hypot (x y : R) : R := sqrt (x * x + y * y).

End Np.

(** ** Vectors, matrices and rotations *)

Record Vec3 : Type := mkVec { vx : R; vy : R; vz : R }.

(** A 3x3 matrix, by rows. *)
Record Matrix : Type := mkMat { row0 : Vec3; row1 : Vec3; row2 : Vec3 }.

Definition dot (u v : Vec3) : R := vx u * vx v + vy u * vy v + vz u * vz v.

Definition col0 (m : Matrix) : Vec3 := mkVec (vx (row0 m)) (vx (row1 m)) (vx (row2 m)).
Definition col1 (m : Matrix) : Vec3 := mkVec (vy (row0 m)) (vy (row1 m)) (vy (row2 m)).
Definition col2 (m : Matrix) : Vec3 := mkVec (vz (row0 m)) (vz (row1 m)) (vz (row2 m)).

(** The matrix product [a * b] of two [np.matrix] values. *)
Definition mat_mul (a b : Matrix) : Matrix :=
  let row r := mkVec (dot r (col0 b)) (dot r (col1 b)) (dot r (col2 b)) in
  mkMat (row (row0 a)) (row (row1 a)) (row (row2 a)).

(** A matrix acting on one vector as a linear map. *)
Definition mat_apply (m : Matrix) (v : Vec3) : Vec3 :=
  mkVec (dot (row0 m) v) (dot (row1 m) v) (dot (row2 m) v).

Inductive Axis : Type := axis_x | axis_y | axis_z.

(** Modelled from the spec: [rotation_matrix] of astropy.coordinates.angles
    is not part of the sources at hand.  It builds the elementary rotation
    about one axis by an angle; the sign convention is the one under which
    the angle [-(pi/2 - lat0)] about y tilts the pole down to latitude
    [lat0] and the angle [-lon0] about z spins the result to longitude
    [lon0]. *)
Definition rotation_matrix (angle : Quantity) (axis : Axis) : Matrix :=
  let s := qsin angle in
  let c := qcos angle in
  match axis with
  | axis_z => mkMat (mkVec c s 0) (mkVec (- s) c 0) (mkVec 0 0 1)
  | axis_y => mkMat (mkVec c 0 (- s)) (mkVec 0 1 0) (mkVec s 0 c)
  | axis_x => mkMat (mkVec 1 0 0) (mkVec 0 c s) (mkVec 0 (- s) c)
  end.

(** ** Representations *)

(** Modelled from the spec: the longitude class of the coordinate library is
    not part of the sources at hand; a longitude lies in [0, 2 pi), other
    values are wrapped into that interval. *)
Definition wrap_longitude (a : R) : R :=
  a - 2 * PI * IZR (Int_part (a / (2 * PI))).

(** A set of points on the unit sphere, each a (lon, lat) pair in radians. *)
Definition UnitSphericalRepresentation : Type := list (R * R).

(** A set of points in space. *)
Definition CartesianRepresentation : Type := list Vec3.

Module UnitSpherical.

(** Modelled from the spec: the constructor of the spherical representation
    is not part of the sources at hand.  It pairs the longitude and latitude
    arrays; longitudes are kept in [0, 2 pi), latitudes are passed through
    without validation. *)
Definition make (lon lat : QuantityArray) : UnitSphericalRepresentation :=
  combine (map wrap_longitude (values (array_to lon radian)))
          (values (array_to lat radian)).

Definition lon (p : UnitSphericalRepresentation) : QuantityArray :=
  mkQArray (map fst p) radian.

Definition lat (p : UnitSphericalRepresentation) : QuantityArray :=
  mkQArray (map snd p) radian.

(** Modelled from the spec: the standard spherical-to-Cartesian conversion of
    one (lon, lat) sample to a 3D unit vector. *)
Definition point_to_cartesian (p : R * R) : Vec3 :=
  mkVec (cos (snd p) * cos (fst p)) (cos (snd p) * sin (fst p)) (sin (snd p)).

Definition to_cartesian (p : UnitSphericalRepresentation) : CartesianRepresentation :=
  map point_to_cartesian p.

(** Modelled from the spec: the conversion of a 3D vector back to
    (longitude, latitude). *)
Definition point_from_cartesian (v : Vec3) : R * R :=
  let s := Np.hypot (vx v) (vy v) in
  (wrap_longitude (Np.arctan2 (vy v) (vx v)), Np.arctan2 (vz v) s).

Definition from_cartesian (c : CartesianRepresentation) : UnitSphericalRepresentation :=
  map point_from_cartesian c.

End UnitSpherical.

Module Cartesian.

(** [CartesianRepresentation(x, y, z)] *)
Fixpoint make (x y z : list R) : CartesianRepresentation :=
  match x, y, z with
  | a :: x', b :: y', c :: z' => mkVec a b c :: make x' y' z'
  | _, _, _ => []
  end.

(** [representation.xyz]: the (3, N) array of the coordinates, by rows. *)
Definition xyz (c : CartesianRepresentation) : list R * list R * list R :=
  (map vx c, map vy c, map vz c).

(** Modelled from the spec: the [transform] method of the Cartesian
    representation is not part of the sources at hand; it applies the matrix
    as a linear map on each 3D vector. *)
Definition transform (c : CartesianRepresentation) (m : Matrix) : CartesianRepresentation :=
  map (mat_apply m) c.

End Cartesian.

(** ** The source functions *)

(** One row of [np.dot(matrix, vec)] for a (3, N) array [vec]. *)
Fixpoint dot_row (r : Vec3) (x y z : list R) : list R :=
  match x, y, z with
  | a :: x', b :: y', c :: z' =>
      (vx r * a + vy r * b + vz r * c) :: dot_row r x' y' z'
  | _, _, _ => []
  end.

(** [np.dot(np.asarray(matrix), vec)] *)
Definition np_dot (m : Matrix) (vec : list R * list R * list R)
  : list R * list R * list R :=
  let '(x, y, z) := vec in
  (dot_row (row0 m) x y z, dot_row (row1 m) x y z, dot_row (row2 m) x y z).

Definition _transform_cartesian (representation : CartesianRepresentation)
    (matrix : Matrix) : CartesianRepresentation :=
  let xyz := Cartesian.xyz representation in
  let vec := xyz in
  let '(x, y, z) := np_dot matrix vec in
  Cartesian.make x y z.

(** [has_transform] tells whether the installed coordinate library offers
    [transform]; when it does not, the call raises and the handler falls
    back on [_transform_cartesian]. *)
Definition _rotate_polygon (has_transform : bool) (lon lat : QuantityArray)
    (lon0 lat0 : Quantity) : QuantityArray * QuantityArray :=
  let polygon := UnitSpherical.make lon lat in
  let m1 := rotation_matrix (qneg (qsub (mkQuantity (0.5 * PI) radian) lat0)) axis_y in
  let m2 := rotation_matrix (qneg lon0) axis_z in
  let transform_matrix := mat_mul m2 m1 in
  let polygon := UnitSpherical.to_cartesian polygon in
  let polygon :=
    if has_transform
    then Cartesian.transform polygon transform_matrix
    else _transform_cartesian polygon transform_matrix in
  let polygon := UnitSpherical.from_cartesian polygon in
  (UnitSpherical.lon polygon, UnitSpherical.lat polygon).

(** The pole-centred ring of the constructor, before rotation. *)
Definition ring_lon (resolution : Z) : result QuantityArray :=
  l <- Np.linspace 0 (2 * PI) (resolution + 1) ;;
  Return (mkQArray (Np.drop_last l) radian).

Definition ring_lat (radius : Quantity) (resolution : Z) : result QuantityArray :=
  l <- Np.repeat (0.5 * PI - value (to radius radian)) resolution ;;
  Return (mkQArray l radian).

(** [SphericalCircle.__init__]: the result is the array of vertices handed
    to the polygon patch, one (lon, lat) row per vertex. *)
Definition SphericalCircle (has_transform : bool) (center : Quantity * Quantity)
    (radius : Quantity) (resolution : Z) (vertex_unit : AngleUnit)
  : result (list (R * R)) :=
  let '(longitude, latitude) := center in
  lon <- ring_lon resolution ;;
  lat <- ring_lat radius resolution ;;
  let '(lon, lat) := _rotate_polygon has_transform lon lat longitude latitude in
  let lon := values (array_to lon vertex_unit) in
  let lat := values (array_to lat vertex_unit) in
  let vertices := combine lon lat in
  Return vertices.

(** ** Notions used to state the properties *)

(** The great-circle (angular) distance between two (lon, lat) points in
    radians, by the spherical law of cosines. *)
Definition great_circle_distance (p q : R * R) : R :=
  acos (sin (snd p) * sin (snd q)
        + cos (snd p) * cos (snd q) * cos (fst q - fst p)).

(** A (lon, lat) pair of quantities as a pair of radian magnitudes. *)
Definition in_radian (c : Quantity * Quantity) : R * R :=
  (value (to (fst c) radian), value (to (snd c) radian)).

(** A vertex given in [u], converted back to radians. *)
Definition vertex_in_radian (u : AngleUnit) (v : R * R) : R * R :=
  in_radian (mkQuantity (fst v) u, mkQuantity (snd v) u).

(** The two elementary rotations of [_rotate_polygon]. *)
Definition R1 (lat0 : Quantity) : Matrix :=
  rotation_matrix (qneg (qsub (mkQuantity (0.5 * PI) radian) lat0)) axis_y.

Definition R2 (lon0 : Quantity) : Matrix :=
  rotation_matrix (qneg lon0) axis_z.

(** Sample [k] of the ring of [n] samples around the pole. *)
Definition ring_point (radius : Quantity) (n k : nat) : R * R :=
  (INR k * (2 * PI / INR n), PI / 2 - value (to radius radian)).

(** The path of one ring sample through [_rotate_polygon]. *)
Definition rotated_point (lon0 lat0 : Quantity) (p : R * R) : R * R :=
  UnitSpherical.point_from_cartesian
    (mat_apply (mat_mul (R2 lon0) (R1 lat0))
       (UnitSpherical.point_to_cartesian (wrap_longitude (fst p), snd p))).

(** A radian pair expressed in the vertex unit. *)
Definition in_vertex_unit (u : AngleUnit) (p : R * R) : R * R :=
  (fst p * (unit_scale radian / unit_scale u),
   snd p * (unit_scale radian / unit_scale u)).

(** Vertex [k] of the circle of [n] vertices. *)
Definition circle_vertex (lon0 lat0 radius : Quantity) (u : AngleUnit) (n k : nat)
  : R * R :=
  in_vertex_unit u (rotated_point lon0 lat0 (ring_point radius n k)).

(** The unit vector of a (lon, lat) point. *)
Definition unit_vector (p : R * R) : Vec3 := UnitSpherical.point_to_cartesian p.

(** The (lon, lat) points, in radians, described by a pair of arrays. *)
Definition polygon_points (lon lat : QuantityArray) : list (R * R) :=
  combine (values (array_to lon radian)) (values (array_to lat radian)).

(** The points described by the two arrays [_rotate_polygon] returns. *)
Definition rotated_polygon_points (ht : bool) (lon lat : QuantityArray)
    (lon0 lat0 : Quantity) : list (R * R) :=
  let out := _rotate_polygon ht lon lat lon0 lat0 in
  polygon_points (fst out) (snd out).

Definition identity_matrix : Matrix :=
  mkMat (mkVec 1 0 0) (mkVec 0 1 0) (mkVec 0 0 1).

(** The opposite vector. *)
Definition vec_opp (v : Vec3) : Vec3 := mkVec (- vx v) (- vy v) (- vz v).

(** ** List and array facts *)

Section Arrays.

Lemma removelast_snoc (A : Type) (l : list A) (a : A) : removelast (l ++ [a]) = l.
Proof.
  induction l as [|b l IH]; simpl; [reflexivity|].
  rewrite IH. destruct l; reflexivity.
Qed.

Lemma removelast_map_seq (A : Type) (f : nat -> A) (n : nat) :
  removelast (map f (seq 0 (S n))) = map f (seq 0 n).
Proof.
  rewrite seq_S, map_app. simpl. apply removelast_snoc.
Qed.

Lemma combine_map_same (A B C : Type) (f : A -> B) (g : A -> C) (l : list A) :
  combine (map f l) (map g l) = map (fun a => (f a, g a)) l.
Proof.
  induction l as [|a l IH]; simpl; [reflexivity | now rewrite IH].
Qed.

Lemma combine_map_repeat (A B : Type) (f : nat -> A) (b : B) (n s : nat) :
  combine (map f (seq s n)) (List.repeat b n) = map (fun k => (f k, b)) (seq s n).
Proof.
  revert s; induction n as [|n IH]; intros s; simpl; [reflexivity | now rewrite IH].
Qed.

Lemma make_xyz (c : CartesianRepresentation) :
  Cartesian.make (map vx c) (map vy c) (map vz c) = c.
Proof.
  induction c as [|[x y z] c IH]; simpl; [reflexivity | now rewrite IH].
Qed.

Lemma dot_row_xyz (r : Vec3) (c : CartesianRepresentation) :
  dot_row r (map vx c) (map vy c) (map vz c) = map (dot r) c.
Proof.
  induction c as [|v c IH]; simpl; [reflexivity | now rewrite IH].
Qed.

Lemma make_rows (f g h : Vec3 -> R) (c : CartesianRepresentation) :
  Cartesian.make (map f c) (map g c) (map h c) = map (fun v => mkVec (f v) (g v) (h v)) c.
Proof.
  induction c as [|v c IH]; simpl; [reflexivity | now rewrite IH].
Qed.

Lemma transform_cartesian_pointwise (c : CartesianRepresentation) (m : Matrix) :
  _transform_cartesian c m = map (mat_apply m) c.
Proof.
  unfold _transform_cartesian, Cartesian.xyz, np_dot.
  rewrite !dot_row_xyz. apply make_rows.
Qed.

Lemma mat_apply_mul (a b : Matrix) (v : Vec3) :
  mat_apply (mat_mul a b) v = mat_apply a (mat_apply b v).
Proof.
  destruct a as [[a00 a01 a02] [a10 a11 a12] [a20 a21 a22]].
  destruct b as [[b00 b01 b02] [b10 b11 b12] [b20 b21 b22]].
  destruct v as [x y z].
  unfold mat_apply, mat_mul, dot, col0, col1, col2; simpl.
  f_equal; ring.
Qed.

End Arrays.

(** ** The ring before rotation *)

Lemma half_PI : 0.5 * PI = PI / 2.
Proof. lra. Qed.

Lemma ring_lon_nat (n : nat) :
  ring_lon (Z.of_nat n) =
  Return (mkQArray (map (fun k => INR k * (2 * PI / INR n)) (seq 0 n)) radian).
Proof.
  unfold ring_lon, Np.linspace, Np.drop_last.
  assert (Hn : Z.to_nat (Z.of_nat n + 1) = S n) by lia.
  destruct (Z.ltb_spec (Z.of_nat n + 1) 0) as [Hneg|_]; [lia|].
  rewrite Hn. cbn [bind]. do 2 f_equal.
  replace (S n - 1)%nat with n by lia.
  destruct n as [|n].
  - reflexivity.
  - destruct (Z.ltb_spec 1 (Z.of_nat (S n) + 1)) as [_|Hle]; [|lia].
    replace (0 <? S n)%nat with true by (symmetry; apply Nat.ltb_lt; lia).
    unfold Np.set_last. rewrite removelast_snoc, removelast_map_seq.
    apply map_ext. intros k. now rewrite Rminus_0_r, Rplus_0_r.
Qed.

Lemma ring_lat_nat (radius : Quantity) (n : nat) :
  ring_lat radius (Z.of_nat n) =
  Return (mkQArray (List.repeat (PI / 2 - value (to radius radian)) n) radian).
Proof.
  unfold ring_lat, Np.repeat.
  destruct (Z.ltb_spec (Z.of_nat n) 0) as [Hneg|_]; [lia|].
  cbn [bind]. now rewrite Nat2Z.id, half_PI.
Qed.

Lemma ring_lat_negative (radius : Quantity) (resolution : Z) :
  (resolution < 0)%Z -> ring_lat radius resolution = ValueError.
Proof.
  intros H. unfold ring_lat, Np.repeat.
  destruct (Z.ltb_spec resolution 0) as [_|Hge]; [reflexivity | lia].
Qed.

(** ** The constructor in closed form *)

Lemma scale_radian (x : R) : x * (unit_scale radian / unit_scale radian) = x.
Proof. unfold unit_scale. field. Qed.

Lemma to_radian_radian (x : R) : value (to (mkQuantity x radian) radian) = x.
Proof. unfold to; cbn [value unit]. apply scale_radian. Qed.

Lemma array_to_radian (l : list R) :
  values (array_to (mkQArray l radian) radian) = l.
Proof.
  unfold array_to; cbn [values aunit].
  erewrite map_ext; [apply map_id | apply scale_radian].
Qed.

Lemma rotate_polygon_pointwise (ht : bool) (lon lat : list R) (lon0 lat0 : Quantity) :
  let p := map (fun q => rotated_point lon0 lat0 q) (combine lon lat) in
  _rotate_polygon ht (mkQArray lon radian) (mkQArray lat radian) lon0 lat0
  = (mkQArray (map fst p) radian, mkQArray (map snd p) radian).
Proof.
  intros p. unfold _rotate_polygon, UnitSpherical.lon, UnitSpherical.lat.
  assert (E : UnitSpherical.from_cartesian
                (if ht
                 then Cartesian.transform
                        (UnitSpherical.to_cartesian
                           (UnitSpherical.make (mkQArray lon radian) (mkQArray lat radian)))
                        (mat_mul (rotation_matrix (qneg lon0) axis_z)
                           (rotation_matrix
                              (qneg (qsub (mkQuantity (0.5 * PI) radian) lat0)) axis_y))
                 else _transform_cartesian
                        (UnitSpherical.to_cartesian
                           (UnitSpherical.make (mkQArray lon radian) (mkQArray lat radian)))
                        (mat_mul (rotation_matrix (qneg lon0) axis_z)
                           (rotation_matrix
                              (qneg (qsub (mkQuantity (0.5 * PI) radian) lat0)) axis_y)))
              = p).
  { rewrite transform_cartesian_pointwise.
    replace (if ht then _ else _)
      with (map (mat_apply (mat_mul (R2 lon0) (R1 lat0)))
              (UnitSpherical.to_cartesian
                 (UnitSpherical.make (mkQArray lon radian) (mkQArray lat radian))))
      by (destruct ht; reflexivity).
    unfold UnitSpherical.from_cartesian, UnitSpherical.to_cartesian, UnitSpherical.make.
    rewrite !array_to_radian, !map_map. subst p.
    clear. revert lat; induction lon as [|a lon IH]; intros [|b lat]; simpl;
      try reflexivity.
    now rewrite IH. }
  cbv zeta. rewrite E. reflexivity.
Qed.

Lemma SphericalCircle_nat (ht : bool) (lon0 lat0 radius : Quantity) (n : nat)
    (u : AngleUnit) :
  SphericalCircle ht (lon0, lat0) radius (Z.of_nat n) u
  = Return (map (circle_vertex lon0 lat0 radius u n) (seq 0 n)).
Proof.
  unfold SphericalCircle. rewrite ring_lon_nat, ring_lat_nat. cbn [bind].
  rewrite rotate_polygon_pointwise. cbv zeta.
  unfold array_to; cbn [values aunit].
  rewrite combine_map_repeat, !map_map, combine_map_same.
  reflexivity.
Qed.

Lemma SphericalCircle_negative (ht : bool) (center : Quantity * Quantity)
    (radius : Quantity) (resolution : Z) (u : AngleUnit) :
  (resolution < 0)%Z -> SphericalCircle ht center radius resolution u = ValueError.
Proof.
  intros H. destruct center as [lon0 lat0]. unfold SphericalCircle.
  rewrite (ring_lat_negative _ _ H).
  destruct (ring_lon resolution); reflexivity.
Qed.

(** ** Longitudes modulo a full turn *)

Lemma cos_period_Z (x : R) (k : Z) : cos (x + 2 * IZR k * PI) = cos x.
Proof.
  destruct (Z_le_gt_dec 0 k) as [Hk|Hk].
  - rewrite <- (Z2Nat.id k Hk), <- INR_IZR_INZ. apply cos_period.
  - rewrite <- (cos_period (x + 2 * IZR k * PI) (Z.to_nat (- k))).
    f_equal. rewrite INR_IZR_INZ, Z2Nat.id by lia. rewrite opp_IZR. ring.
Qed.

Lemma sin_period_Z (x : R) (k : Z) : sin (x + 2 * IZR k * PI) = sin x.
Proof.
  destruct (Z_le_gt_dec 0 k) as [Hk|Hk].
  - rewrite <- (Z2Nat.id k Hk), <- INR_IZR_INZ. apply sin_period.
  - rewrite <- (sin_period (x + 2 * IZR k * PI) (Z.to_nat (- k))).
    f_equal. rewrite INR_IZR_INZ, Z2Nat.id by lia. rewrite opp_IZR. ring.
Qed.

Lemma wrap_longitude_turns (a : R) :
  wrap_longitude a = a + 2 * IZR (- Int_part (a / (2 * PI))) * PI.
Proof. unfold wrap_longitude. rewrite opp_IZR. ring. Qed.

Lemma cos_wrap_longitude (a : R) : cos (wrap_longitude a) = cos a.
Proof. rewrite wrap_longitude_turns. apply cos_period_Z. Qed.

Lemma sin_wrap_longitude (a : R) : sin (wrap_longitude a) = sin a.
Proof. rewrite wrap_longitude_turns. apply sin_period_Z. Qed.

Lemma wrap_longitude_range (a : R) : 0 <= wrap_longitude a < 2 * PI.
Proof.
  unfold wrap_longitude.
  pose proof PI_RGT_0 as Hpi.
  destruct (base_Int_part (a / (2 * PI))) as [Hlo Hhi].
  set (k := IZR (Int_part (a / (2 * PI)))) in *.
  assert (Ha : a = 2 * PI * (a / (2 * PI))) by (field; lra).
  set (t := a / (2 * PI)) in *.
  rewrite Ha. split; nra.
Qed.

Lemma wrap_longitude_id (a : R) : 0 <= a < 2 * PI -> wrap_longitude a = a.
Proof.
  intros [Hlo Hhi]. unfold wrap_longitude.
  pose proof PI_RGT_0 as Hpi.
  assert (E : Int_part (a / (2 * PI)) = 0%Z).
  { symmetry. apply Int_part_spec. split.
    - apply Rlt_le_trans with (0 - 0); [|lra].
      assert (a / (2 * PI) < 1); [|lra].
      apply Rmult_lt_reg_r with (2 * PI); [lra|].
      unfold Rdiv. rewrite Rmult_assoc, Rinv_l by lra. lra.
    - apply Rmult_le_reg_r with (2 * PI); [lra|].
      unfold Rdiv. rewrite Rmult_assoc, Rinv_l by lra. lra. }
  rewrite E. lra.
Qed.

(** Two angles less than a full turn apart with the same cosine and sine
    are equal. *)
Lemma angle_unique (a b : R) :
  - (2 * PI) < a - b < 2 * PI -> cos a = cos b -> sin a = sin b -> a = b.
Proof.
  intros [Hlo Hhi] Hc Hs.
  pose proof PI_RGT_0 as Hpi.
  assert (Hs0 : sin (a - b) = 0).
  { rewrite sin_minus, Hc, Hs. ring. }
  assert (Hc1 : cos (a - b) = 1).
  { rewrite cos_minus, Hc, Hs. pose proof (sin2_cos2 b) as H. unfold Rsqr in H. lra. }
  destruct (Rle_dec 0 (a - b)) as [Hpos|Hneg].
  - destruct (sin_eq_O_2PI_0 (a - b) Hpos (Rlt_le _ _ Hhi) Hs0) as [H|[H|H]].
    + lra.
    + rewrite H, cos_PI in Hc1. lra.
    + lra.
  - assert (Hs0' : sin (b - a) = 0).
    { replace (b - a) with (- (a - b)) by ring. rewrite sin_neg, Hs0. ring. }
    assert (Hc1' : cos (b - a) = 1).
    { replace (b - a) with (- (a - b)) by ring. now rewrite cos_neg. }
    assert (Hpos : 0 <= b - a) by lra.
    assert (Hle : b - a <= 2 * PI) by lra.
    destruct (sin_eq_O_2PI_0 (b - a) Hpos Hle Hs0') as [H|[H|H]].
    + lra.
    + rewrite H, cos_PI in Hc1'. lra.
    + lra.
Qed.

(** ** Polar form of [arctan2] *)

Lemma hypot_nonneg (x y : R) : 0 <= Np.hypot x y.
Proof. apply sqrt_pos. Qed.

Lemma hypot_square (x y : R) : Np.hypot x y * Np.hypot x y = x * x + y * y.
Proof. unfold Np.hypot. apply sqrt_sqrt. nra. Qed.

Lemma hypot_0_r (y : R) : 0 <= y -> Np.hypot 0 y = y.
Proof.
  intros Hy. unfold Np.hypot. apply sqrt_lem_1; nra.
Qed.

Lemma hypot_factor (x y : R) (s : R) :
  0 < s * x -> s * s = 1 ->
  Np.hypot x y = s * x * sqrt (1 + (y / x)²).
Proof.
  intros Hsx Hs.
  assert (Hx : x <> 0) by (intros E; rewrite E in Hsx; lra).
  assert (Hw : 0 <= 1 + (y / x)²) by (pose proof (Rle_0_sqr (y / x)); lra).
  unfold Np.hypot. apply sqrt_lem_1.
  - nra.
  - apply Rmult_le_pos; [lra | apply sqrt_pos].
  - transitivity (s * s * (x * x) * (sqrt (1 + (y / x)²) * sqrt (1 + (y / x)²)));
      [ring|].
    rewrite sqrt_sqrt, Hs by exact Hw. unfold Rsqr. field. exact Hx.
Qed.

Lemma sqrt_1_sqr_pos (t : R) : 0 < sqrt (1 + t²).
Proof. apply sqrt_lt_R0. pose proof (Rle_0_sqr t). lra. Qed.

Lemma arctan2_polar (y x : R) :
  Np.hypot x y * cos (Np.arctan2 y x) = x /\
  Np.hypot x y * sin (Np.arctan2 y x) = y.
Proof.
  unfold Np.arctan2.
  pose proof (sqrt_1_sqr_pos (y / x)) as Hw.
  destruct (Rlt_dec 0 x) as [Hx|Hx].
  - rewrite (hypot_factor x y 1) by lra.
    rewrite cos_atan, sin_atan. split; field; lra.
  - destruct (Rlt_dec x 0) as [Hx'|Hx'].
    + rewrite (hypot_factor x y (-1)) by lra.
      destruct (Rle_dec 0 y) as [Hy|Hy].
      * rewrite neg_cos, neg_sin, cos_atan, sin_atan. split; field; lra.
      * replace (atan (y / x) - PI) with (- (PI - atan (y / x))) by ring.
        rewrite cos_neg, sin_neg.
        replace (PI - atan (y / x)) with (- atan (y / x) + PI) by ring.
        rewrite neg_cos, neg_sin, cos_neg, sin_neg, cos_atan, sin_atan.
        split; field; lra.
    + assert (E : x = 0) by lra. subst x.
      destruct (Rlt_dec 0 y) as [Hy|Hy].
      * rewrite hypot_0_r, cos_PI2, sin_PI2 by lra. split; ring.
      * destruct (Rlt_dec y 0) as [Hy'|Hy'].
        -- replace (Np.hypot 0 y) with (- y).
           ++ rewrite cos_neg, sin_neg, cos_PI2, sin_PI2. split; ring.
           ++ symmetry. unfold Np.hypot. apply sqrt_lem_1; nra.
        -- assert (E : y = 0) by lra. subst y.
           rewrite hypot_0_r, cos_0, sin_0 by lra. split; ring.
Qed.

Lemma arctan2_right_half (y x : R) :
  0 <= x -> - (PI / 2) <= Np.arctan2 y x <= PI / 2.
Proof.
  intros Hx. unfold Np.arctan2.
  pose proof PI_RGT_0 as Hpi.
  destruct (Rlt_dec 0 x) as [H|H].
  - pose proof (atan_bound (y / x)). lra.
  - destruct (Rlt_dec x 0) as [H'|H']; [lra|].
    destruct (Rlt_dec 0 y); [lra|].
    destruct (Rlt_dec y 0); lra.
Qed.

(** ** Rotations and unit vectors *)

Lemma sin2_cos2' (a : R) : sin a * sin a + cos a * cos a = 1.
Proof. exact (sin2_cos2 a). Qed.

Lemma rotation_preserves_dot (angle : Quantity) (axis : Axis) (u v : Vec3) :
  dot (mat_apply (rotation_matrix angle axis) u)
      (mat_apply (rotation_matrix angle axis) v) = dot u v.
Proof.
  unfold rotation_matrix, qsin, qcos.
  pose proof (sin2_cos2' (value (to angle radian))) as H.
  set (s := sin _) in *. set (c := cos _) in *.
  destruct u as [a b d], v as [a' b' d'].
  destruct axis; unfold mat_apply, dot; cbn [vx vy vz row0 row1 row2].
  - transitivity (a * a' + (s * s + c * c) * (b * b' + d * d')); [ring|].
    rewrite H; ring.
  - transitivity (b * b' + (s * s + c * c) * (a * a' + d * d')); [ring|].
    rewrite H; ring.
  - transitivity (d * d' + (s * s + c * c) * (a * a' + b * b')); [ring|].
    rewrite H; ring.
Qed.

Lemma pole_to_center_preserves_dot (lon0 lat0 : Quantity) (u v : Vec3) :
  dot (mat_apply (mat_mul (R2 lon0) (R1 lat0)) u)
      (mat_apply (mat_mul (R2 lon0) (R1 lat0)) v) = dot u v.
Proof.
  rewrite !mat_apply_mul. unfold R1, R2. now rewrite !rotation_preserves_dot.
Qed.

Lemma unit_vector_norm (p : R * R) : dot (unit_vector p) (unit_vector p) = 1.
Proof.
  unfold unit_vector, UnitSpherical.point_to_cartesian, dot; cbn [vx vy vz].
  pose proof (sin2_cos2' (fst p)) as H1. pose proof (sin2_cos2' (snd p)) as H2.
  transitivity (cos (snd p) * cos (snd p) * (sin (fst p) * sin (fst p) + cos (fst p) * cos (fst p))
                + sin (snd p) * sin (snd p)); [ring|].
  rewrite H1. lra.
Qed.

(** Converting a unit vector to (lon, lat) and back gives the vector. *)
Lemma from_cartesian_roundtrip (v : Vec3) :
  dot v v = 1 -> unit_vector (UnitSpherical.point_from_cartesian v) = v.
Proof.
  destruct v as [x y z]. unfold dot; cbn [vx vy vz]. intros Hn.
  unfold unit_vector, UnitSpherical.point_from_cartesian, UnitSpherical.point_to_cartesian.
  cbn [vx vy vz fst snd].
  rewrite cos_wrap_longitude, sin_wrap_longitude.
  destruct (arctan2_polar y x) as [Hx Hy].
  destruct (arctan2_polar z (Np.hypot x y)) as [Hs Hz].
  assert (H1 : Np.hypot (Np.hypot x y) z = 1).
  { unfold Np.hypot at 1. rewrite hypot_square.
    replace (x * x + y * y + z * z) with 1 by lra. apply sqrt_1. }
  rewrite H1, Rmult_1_l in Hs, Hz.
  rewrite Hs, Hz, Hx, Hy. reflexivity.
Qed.

Lemma latitude_range (v : Vec3) :
  - (PI / 2) <= snd (UnitSpherical.point_from_cartesian v) <= PI / 2.
Proof.
  unfold UnitSpherical.point_from_cartesian; cbn [snd].
  apply arctan2_right_half, hypot_nonneg.
Qed.

Lemma longitude_range (v : Vec3) :
  0 <= fst (UnitSpherical.point_from_cartesian v) < 2 * PI.
Proof.
  unfold UnitSpherical.point_from_cartesian; cbn [fst].
  apply wrap_longitude_range.
Qed.

(** ** The two rotations, entry by entry *)

Lemma to_radian_neg (q : Quantity) :
  value (to (qneg q) radian) = - value (to q radian).
Proof. unfold to, qneg; cbn [value unit]. ring. Qed.

Lemma to_radian_colatitude (lat0 : Quantity) :
  value (to (qsub (mkQuantity (0.5 * PI) radian) lat0) radian)
  = PI / 2 - value (to lat0 radian).
Proof.
  unfold qsub; cbn [value unit]. unfold to at 1; cbn [value unit].
  rewrite scale_radian. lra.
Qed.

Lemma R1_entries (lat0 : Quantity) :
  let phi := value (to lat0 radian) in
  R1 lat0 = mkMat (mkVec (sin phi) 0 (cos phi)) (mkVec 0 1 0)
                  (mkVec (- cos phi) 0 (sin phi)).
Proof.
  intros phi. unfold R1, rotation_matrix, qsin, qcos.
  rewrite to_radian_neg, to_radian_colatitude. fold phi.
  rewrite cos_neg, sin_neg, cos_shift, sin_shift, Ropp_involutive. reflexivity.
Qed.

Lemma R2_entries (lon0 : Quantity) :
  let lam := value (to lon0 radian) in
  R2 lon0 = mkMat (mkVec (cos lam) (- sin lam) 0) (mkVec (sin lam) (cos lam) 0)
                  (mkVec 0 0 1).
Proof.
  intros lam. unfold R2, rotation_matrix, qsin, qcos.
  rewrite to_radian_neg. fold lam.
  rewrite cos_neg, sin_neg, Ropp_involutive. reflexivity.
Qed.

(** The rotation carries the pole to the centre. *)
Lemma pole_to_center (lon0 lat0 : Quantity) :
  mat_apply (mat_mul (R2 lon0) (R1 lat0)) (mkVec 0 0 1)
  = unit_vector (in_radian (lon0, lat0)).
Proof.
  rewrite mat_apply_mul, R1_entries, R2_entries.
  unfold unit_vector, UnitSpherical.point_to_cartesian, in_radian, mat_apply, dot.
  cbn [vx vy vz row0 row1 row2 fst snd]. f_equal; ring.
Qed.

(** ** Facts about one vertex *)

Lemma unit_scale_pos (u : AngleUnit) : 0 < unit_scale u.
Proof.
  pose proof PI_RGT_0. destruct u; unfold unit_scale; lra.
Qed.

Lemma vertex_in_radian_in_vertex_unit (u : AngleUnit) (p : R * R) :
  vertex_in_radian u (in_vertex_unit u p) = p.
Proof.
  pose proof (unit_scale_pos u) as Hu.
  destruct p as [a b].
  unfold vertex_in_radian, in_vertex_unit, in_radian, to; cbn [fst snd value unit].
  change (unit_scale radian) with 1.
  f_equal; field; lra.
Qed.

Lemma in_vertex_unit_radian (p : R * R) : in_vertex_unit radian p = p.
Proof.
  destruct p as [a b]. unfold in_vertex_unit; cbn [fst snd].
  now rewrite !scale_radian.
Qed.

(** The unit vector of a rotated sample is the rotated unit vector. *)
Lemma rotated_vector (lon0 lat0 : Quantity) (p : R * R) :
  unit_vector (rotated_point lon0 lat0 p)
  = mat_apply (mat_mul (R2 lon0) (R1 lat0)) (unit_vector (wrap_longitude (fst p), snd p)).
Proof.
  unfold rotated_point. apply from_cartesian_roundtrip.
  rewrite pole_to_center_preserves_dot. apply unit_vector_norm.
Qed.

Lemma ring_vector (radius : Quantity) (n k : nat) :
  let r := value (to radius radian) in
  let th := INR k * (2 * PI / INR n) in
  unit_vector (wrap_longitude (fst (ring_point radius n k)), snd (ring_point radius n k))
  = mkVec (sin r * cos th) (sin r * sin th) (cos r).
Proof.
  intros r th. unfold unit_vector, UnitSpherical.point_to_cartesian, ring_point.
  cbn [fst snd]. fold r th.
  now rewrite cos_wrap_longitude, sin_wrap_longitude, cos_shift, sin_shift.
Qed.

Lemma great_circle_distance_dot (p q : R * R) :
  great_circle_distance p q = acos (dot (unit_vector p) (unit_vector q)).
Proof.
  unfold great_circle_distance, unit_vector, UnitSpherical.point_to_cartesian, dot.
  cbn [vx vy vz]. f_equal. rewrite cos_minus. ring.
Qed.

(** The cosine of the angle between the centre and a rotated ring sample. *)
Lemma center_dot_vertex (lon0 lat0 radius : Quantity) (n k : nat) :
  dot (unit_vector (in_radian (lon0, lat0)))
      (unit_vector (rotated_point lon0 lat0 (ring_point radius n k)))
  = cos (value (to radius radian)).
Proof.
  rewrite rotated_vector, <- pole_to_center, pole_to_center_preserves_dot.
  rewrite ring_vector. unfold dot; cbn [vx vy vz]. ring.
Qed.

Lemma Forall_map_seq (A : Type) (P : A -> Prop) (f : nat -> A) (s n : nat) :
  (forall k, P (f k)) -> Forall P (map f (seq s n)).
Proof.
  intros H. apply Forall_forall. intros a Ha.
  apply in_map_iff in Ha. destruct Ha as [k [<- _]]. apply H.
Qed.

Lemma SphericalCircle_nonnegative (ht : bool) (lon0 lat0 radius : Quantity)
    (resolution : Z) (u : AngleUnit) :
  (0 <= resolution)%Z ->
  SphericalCircle ht (lon0, lat0) radius resolution u
  = Return (map (circle_vertex lon0 lat0 radius u (Z.to_nat resolution))
              (seq 0 (Z.to_nat resolution))).
Proof.
  intros H. rewrite <- (Z2Nat.id resolution H) at 1. apply SphericalCircle_nat.
Qed.

(** Whatever holds of every closed-form vertex holds of every vertex the
    constructor returns. *)
Lemma SphericalCircle_Forall (P : R * R -> Prop) (ht : bool)
    (lon0 lat0 radius : Quantity) (resolution : Z) (u : AngleUnit)
    (vs : list (R * R)) :
  (forall n k, P (circle_vertex lon0 lat0 radius u n k)) ->
  SphericalCircle ht (lon0, lat0) radius resolution u = Return vs ->
  Forall P vs.
Proof.
  intros HP E.
  destruct (Z_lt_ge_dec resolution 0) as [Hneg|Hpos].
  - rewrite SphericalCircle_negative in E by exact Hneg. discriminate.
  - rewrite SphericalCircle_nonnegative in E by lia.
    injection E as <-. apply Forall_map_seq. intros k. apply HP.
Qed.

(** The sine of the latitude of a rotated sample is the height of the rotated
    unit vector. *)
Lemma rotated_sin_latitude (lon0 lat0 : Quantity) (p : R * R) :
  sin (snd (rotated_point lon0 lat0 p))
  = vz (mat_apply (mat_mul (R2 lon0) (R1 lat0))
          (unit_vector (wrap_longitude (fst p), snd p))).
Proof.
  rewrite <- rotated_vector. reflexivity.
Qed.

(** Canonical coordinates away from the poles determine the point. *)
Lemma unit_vector_inj (p q : R * R) :
  0 <= fst p < 2 * PI -> 0 <= fst q < 2 * PI ->
  - (PI / 2) <= snd p <= PI / 2 -> - (PI / 2) < snd q < PI / 2 ->
  unit_vector p = unit_vector q -> p = q.
Proof.
  destruct p as [lp bp], q as [lq bq]; cbn [fst snd].
  intros Hlp Hlq Hbp Hbq E.
  unfold unit_vector, UnitSpherical.point_to_cartesian in E; cbn [fst snd] in E.
  injection E as Ex Ey Ez.
  assert (Eb : bp = bq) by (apply sin_inj; [lra | lra | exact Ez]).
  subst bp.
  assert (Hc : 0 < cos bq) by (apply cos_gt_0; lra).
  apply Rmult_eq_reg_l in Ex; [|lra].
  apply Rmult_eq_reg_l in Ey; [|lra].
  f_equal. apply angle_unique; [lra | exact Ex | exact Ey].
Qed.

(** With a radius of zero every ring sample is the pole, which the rotation
    carries to the centre. *)
Lemma rotated_pole (lon0 lat0 radius : Quantity) (n k : nat) :
  value (to radius radian) = 0 ->
  unit_vector (rotated_point lon0 lat0 (ring_point radius n k))
  = unit_vector (in_radian (lon0, lat0)).
Proof.
  intros Hr. rewrite rotated_vector, ring_vector, Hr, sin_0, cos_0.
  rewrite <- pole_to_center. now rewrite !Rmult_0_l.
Qed.

(** With the centre at the north pole the rotation keeps heights. *)
Lemma polar_center_height (lon0 lat0 : Quantity) (w : Vec3) :
  value (to lat0 radian) = PI / 2 ->
  vz (mat_apply (mat_mul (R2 lon0) (R1 lat0)) w) = vz w.
Proof.
  intros Hlat. rewrite mat_apply_mul, R1_entries, R2_entries, Hlat.
  rewrite sin_PI2, cos_PI2. destruct w as [a b c].
  unfold mat_apply, dot; cbn [vx vy vz row0 row1 row2]. ring.
Qed.

(** * The properties *)

(** C1. For every resolution of at least one, with any centre, radius and
    vertex unit, the constructor returns a vertex sequence whose length is
    exactly the resolution. *)
Theorem vertex_count (ht : bool) (center : Quantity * Quantity) (radius : Quantity)
    (resolution : Z) (u : AngleUnit) :
  (1 <= resolution)%Z ->
  exists vs, SphericalCircle ht center radius resolution u = Return vs
             /\ Z.of_nat (length vs) = resolution.
Proof.
  intros H. destruct center as [lon0 lat0].
  eexists. split.
  - apply SphericalCircle_nonnegative. lia.
  - rewrite length_map, length_seq. lia.
Qed.

Lemma vertex_count_witness :
  exists vs, SphericalCircle true (mkQuantity 0 degree, mkQuantity 0 degree)
               (mkQuantity 10 degree) 100 degree = Return vs
             /\ Z.of_nat (length vs) = 100%Z.
Proof. apply vertex_count. lia. Defined.

(** C3. For a resolution of n samples and any radius, the ring before
    rotation has exactly n longitudes, the k-th being k * 2 pi / n for
    k = 0 .. n-1, all of them below the excluded endpoint 2 pi, and n
    latitudes all equal to pi/2 - radius in radians. *)
Theorem ring_samples (n : nat) (radius : Quantity) :
  exists lon lat,
    ring_lon (Z.of_nat n) = Return (mkQArray lon radian)
    /\ ring_lat radius (Z.of_nat n) = Return (mkQArray lat radian)
    /\ lon = map (fun k => INR k * (2 * PI / INR n)) (seq 0 n)
    /\ lat = List.repeat (PI / 2 - value (to radius radian)) n
    /\ length lon = n /\ length lat = n
    /\ Forall (fun x => 0 <= x < 2 * PI) lon.
Proof.
  do 2 eexists. split; [apply ring_lon_nat|]. split; [apply ring_lat_nat|].
  split; [reflexivity|]. split; [reflexivity|].
  split; [now rewrite length_map, length_seq|].
  split; [apply repeat_length|].
  apply Forall_forall. intros x Hx.
  apply in_map_iff in Hx. destruct Hx as [k [<- Hk]].
  apply in_seq in Hk.
  pose proof PI_RGT_0 as Hpi.
  assert (Hkn : INR k < INR n) by (apply lt_INR; lia).
  assert (Hk0 : 0 <= INR k) by apply pos_INR.
  assert (Hn : 0 < INR n) by lra.
  assert (E : INR k * (2 * PI / INR n) = 2 * PI * (INR k / INR n)) by (field; lra).
  assert (Hq : 0 <= INR k / INR n < 1).
  { split.
    - apply Rmult_le_pos; [lra | left; now apply Rinv_0_lt_compat].
    - apply Rmult_lt_reg_r with (INR n); [lra|].
      unfold Rdiv. rewrite Rmult_assoc, Rinv_l by lra. lra. }
  rewrite E. split; nra.
Qed.

(** C4. The rotation that [_rotate_polygon] applies to the ring is the
    composition R2 o R1 with R1 applied first: R1 is the rotation about the
    y axis by the angle -(pi/2 - lat0) and R2 the rotation about the z axis
    by the angle -lon0. *)
Theorem rotation_is_R2_after_R1 (ht : bool) (lon lat : QuantityArray)
    (lon0 lat0 : Quantity) :
  let r1 := rotation_matrix
              (mkQuantity (- (PI / 2 - value (to lat0 radian))) radian) axis_y in
  let r2 := rotation_matrix (mkQuantity (- value (to lon0 radian)) radian) axis_z in
  let rotated :=
    UnitSpherical.from_cartesian
      (map (fun v => mat_apply r2 (mat_apply r1 v))
         (UnitSpherical.to_cartesian (UnitSpherical.make lon lat))) in
  _rotate_polygon ht lon lat lon0 lat0
  = (UnitSpherical.lon rotated, UnitSpherical.lat rotated).
Proof.
  intros r1 r2 rotated.
  assert (E1 : r1 = R1 lat0).
  { unfold r1, R1, rotation_matrix, qsin, qcos.
    now rewrite to_radian_neg, to_radian_colatitude, to_radian_radian. }
  assert (E2 : r2 = R2 lon0).
  { unfold r2, R2, rotation_matrix, qsin, qcos.
    now rewrite to_radian_neg, to_radian_radian. }
  unfold _rotate_polygon. cbv zeta. fold (R1 lat0) (R2 lon0).
  rewrite transform_cartesian_pointwise.
  replace (if ht then _ else _)
    with (map (mat_apply (mat_mul (R2 lon0) (R1 lat0)))
            (UnitSpherical.to_cartesian (UnitSpherical.make lon lat)))
    by (destruct ht; reflexivity).
  subst rotated. rewrite E1, E2.
  do 3 f_equal; apply map_ext; intros v; apply mat_apply_mul.
Qed.

(** C6. For every centre, radius and resolution, the vertices produced in
    degrees, converted back to radians, are the vertices produced in
    radians; when one construction raises so does the other. *)
Theorem unit_consistency (ht : bool) (center : Quantity * Quantity)
    (radius : Quantity) (resolution : Z) :
  (vs <- SphericalCircle ht center radius resolution degree ;;
   Return (map (vertex_in_radian degree) vs))
  = SphericalCircle ht center radius resolution radian.
Proof.
  destruct center as [lon0 lat0].
  destruct (Z_lt_ge_dec resolution 0) as [Hneg|Hpos].
  - now rewrite !SphericalCircle_negative by exact Hneg.
  - rewrite !SphericalCircle_nonnegative by lia. cbn [bind].
    f_equal. rewrite map_map. apply map_ext. intros k.
    unfold circle_vertex.
    now rewrite vertex_in_radian_in_vertex_unit, in_vertex_unit_radian.
Qed.

(** C9. For every Cartesian representation and every matrix the fallback
    [_transform_cartesian] computes the representation that [transform]
    computes, so [_rotate_polygon] returns the same arrays through either
    branch. *)
Theorem fallback_agrees_with_transform (representation : CartesianRepresentation)
    (matrix : Matrix) :
  _transform_cartesian representation matrix
  = Cartesian.transform representation matrix
  /\ forall lon lat lon0 lat0,
       _rotate_polygon false lon lat lon0 lat0
       = _rotate_polygon true lon lat lon0 lat0.
Proof.
  split.
  - apply transform_cartesian_pointwise.
  - intros lon lat lon0 lat0. unfold _rotate_polygon. cbv zeta.
    now rewrite transform_cartesian_pointwise.
Qed.

(** C2. For every centre and every radius strictly between 0 and pi, the
    great-circle distance from the centre to each vertex of the generated
    circle equals the radius. *)
Theorem vertices_at_radius (ht : bool) (lon0 lat0 radius : Quantity)
    (resolution : Z) (u : AngleUnit) (vs : list (R * R)) :
  0 < value (to radius radian) < PI ->
  SphericalCircle ht (lon0, lat0) radius resolution u = Return vs ->
  Forall (fun v => great_circle_distance (in_radian (lon0, lat0))
                     (vertex_in_radian u v)
                   = value (to radius radian)) vs.
Proof.
  intros Hr. apply SphericalCircle_Forall. intros n k.
  unfold circle_vertex. rewrite vertex_in_radian_in_vertex_unit.
  rewrite great_circle_distance_dot, center_dot_vertex.
  apply acos_cos. lra.
Qed.

Lemma vertices_at_radius_witness :
  exists vs,
    SphericalCircle true (mkQuantity 180 degree, mkQuantity 45 degree)
      (mkQuantity 5 degree) 4 degree = Return vs
    /\ length vs = 4%nat
    /\ Forall (fun v => great_circle_distance
                          (in_radian (mkQuantity 180 degree, mkQuantity 45 degree))
                          (vertex_in_radian degree v)
                        = value (to (mkQuantity 5 degree) radian)) vs.
Proof.
  eexists. split; [reflexivity|]. split; [reflexivity|].
  apply (vertices_at_radius true (mkQuantity 180 degree) (mkQuantity 45 degree)
           (mkQuantity 5 degree) 4 degree).
  - unfold to, unit_scale; cbn [value unit]. pose proof PI_RGT_0. lra.
  - reflexivity.
Defined.

(** C10. For every centre, radius and resolution, every vertex returned has
    a latitude between -pi/2 and pi/2, that is, between the values of
    -pi/2 and pi/2 expressed in the vertex unit; the centre latitude is not
    constrained. *)
Theorem vertex_latitude_in_range (ht : bool) (center : Quantity * Quantity)
    (radius : Quantity) (resolution : Z) (u : AngleUnit) (vs : list (R * R)) :
  SphericalCircle ht center radius resolution u = Return vs ->
  Forall (fun v =>
            - (PI / 2) <= snd (vertex_in_radian u v) <= PI / 2
            /\ value (to (mkQuantity (- (PI / 2)) radian) u) <= snd v
               <= value (to (mkQuantity (PI / 2) radian) u)) vs.
Proof.
  destruct center as [lon0 lat0].
  apply SphericalCircle_Forall. intros n k.
  unfold circle_vertex. rewrite vertex_in_radian_in_vertex_unit.
  unfold rotated_point.
  set (v := mat_apply _ _).
  pose proof (latitude_range v) as [Hlo Hhi].
  split; [split; assumption|].
  unfold in_vertex_unit, to; cbn [fst snd value unit].
  assert (Hs : 0 <= unit_scale radian / unit_scale u).
  { pose proof (unit_scale_pos u). change (unit_scale radian) with 1.
    unfold Rdiv. rewrite Rmult_1_l. left. now apply Rinv_0_lt_compat. }
  split; apply Rmult_le_compat_r; assumption.
Qed.

Lemma vertex_latitude_in_range_witness :
  exists vs,
    SphericalCircle true (mkQuantity 0 degree, mkQuantity 100 degree)
      (mkQuantity 10 degree) 3 degree = Return vs
    /\ length vs = 3%nat
    /\ Forall (fun v =>
                 - (PI / 2) <= snd (vertex_in_radian degree v) <= PI / 2
                 /\ value (to (mkQuantity (- (PI / 2)) radian) degree) <= snd v
                    <= value (to (mkQuantity (PI / 2) radian) degree)) vs.
Proof.
  eexists. split; [reflexivity|]. split; [reflexivity|].
  apply (vertex_latitude_in_range true (mkQuantity 0 degree, mkQuantity 100 degree)
           (mkQuantity 10 degree) 3 degree).
  reflexivity.
Defined.

(** C5, as amended.  With the centre latitude pi/2 (the north pole), any
    centre longitude, a radius between 0 and pi and a resolution that is not
    negative, the constructor returns, and every vertex has the latitude
    pi/2 - radius. *)
Theorem pole_centered_latitude (ht : bool) (lon0 lat0 radius : Quantity)
    (resolution : Z) (u : AngleUnit) :
  value (to lat0 radian) = PI / 2 ->
  0 <= value (to radius radian) <= PI ->
  (0 <= resolution)%Z ->
  exists vs,
    SphericalCircle ht (lon0, lat0) radius resolution u = Return vs
    /\ Z.of_nat (length vs) = resolution
    /\ Forall (fun v => snd (vertex_in_radian u v)
                        = PI / 2 - value (to radius radian)) vs.
Proof.
  intros Hlat Hr Hres. eexists. split; [now apply SphericalCircle_nonnegative|].
  split; [rewrite length_map, length_seq; lia|].
  apply Forall_map_seq. intros k.
  unfold circle_vertex. rewrite vertex_in_radian_in_vertex_unit.
  apply sin_inj.
  - apply latitude_range.
  - lra.
  - rewrite rotated_sin_latitude, polar_center_height by exact Hlat.
    rewrite ring_vector. cbn [vz]. now rewrite sin_shift.
Qed.

Lemma pole_centered_latitude_witness :
  exists vs,
    SphericalCircle true (mkQuantity 30 degree, mkQuantity 90 degree)
      (mkQuantity 10 degree) 4 degree = Return vs
    /\ Z.of_nat (length vs) = 4%Z
    /\ Forall (fun v => snd (vertex_in_radian degree v)
                        = PI / 2 - value (to (mkQuantity 10 degree) radian)) vs.
Proof.
  pose proof PI_RGT_0 as Hpi.
  apply (pole_centered_latitude true (mkQuantity 30 degree) (mkQuantity 90 degree)
           (mkQuantity 10 degree) 4 degree).
  - unfold to, unit_scale; cbn [value unit]. lra.
  - unfold to, unit_scale; cbn [value unit]. lra.
  - lia.
Defined.

(** C5 as stated fails for a radius outside [0, pi]: with the centre at the
    pole and a radius of 270 degrees the one vertex does not have the
    latitude pi/2 - radius. *)
Lemma pole_centered_latitude_fails_beyond_pi :
  exists vs,
    SphericalCircle true (mkQuantity 0 degree, mkQuantity 90 degree)
      (mkQuantity 270 degree) 1 degree = Return vs
    /\ ~ Forall (fun v => snd (vertex_in_radian degree v)
                          = PI / 2 - value (to (mkQuantity 270 degree) radian)) vs.
Proof.
  eexists. split; [apply (SphericalCircle_nat true _ _ _ 1)|].
  cbn [seq map]. intros HF. inversion HF as [|v l Hv _]; subst.
  unfold circle_vertex in Hv. rewrite vertex_in_radian_in_vertex_unit in Hv.
  unfold rotated_point in Hv.
  match type of Hv with
  | snd (UnitSpherical.point_from_cartesian ?w) = _ =>
      pose proof (latitude_range w) as [Hlo _]
  end.
  rewrite Hv in Hlo. unfold to, unit_scale in Hlo; cbn [value unit] in Hlo.
  pose proof PI_RGT_0. lra.
Qed.

(** C7, as amended.  With a radius of zero and a resolution that is not
    negative the constructor returns, every vertex is the same point of the
    sphere as the centre, and it has the centre's coordinates when the
    centre longitude lies in [0, 2 pi) and the centre latitude strictly
    between -pi/2 and pi/2. *)
Theorem zero_radius_collapses (ht : bool) (lon0 lat0 radius : Quantity)
    (resolution : Z) (u : AngleUnit) :
  value (to radius radian) = 0 ->
  (0 <= resolution)%Z ->
  exists vs,
    SphericalCircle ht (lon0, lat0) radius resolution u = Return vs
    /\ Z.of_nat (length vs) = resolution
    /\ Forall (fun v =>
                 unit_vector (vertex_in_radian u v)
                 = unit_vector (in_radian (lon0, lat0))
                 /\ (0 <= value (to lon0 radian) < 2 * PI ->
                     - (PI / 2) < value (to lat0 radian) < PI / 2 ->
                     vertex_in_radian u v = in_radian (lon0, lat0))) vs.
Proof.
  intros Hr Hres. eexists. split; [now apply SphericalCircle_nonnegative|].
  split; [rewrite length_map, length_seq; lia|].
  apply Forall_map_seq. intros k.
  unfold circle_vertex. rewrite vertex_in_radian_in_vertex_unit.
  pose proof (rotated_pole lon0 lat0 radius (Z.to_nat resolution) k Hr) as E.
  split; [exact E|].
  intros Hlon Hlat. apply unit_vector_inj.
  - apply longitude_range.
  - exact Hlon.
  - apply latitude_range.
  - exact Hlat.
  - exact E.
Qed.

Lemma zero_radius_collapses_witness :
  exists vs,
    SphericalCircle true (mkQuantity 180 degree, mkQuantity 45 degree)
      (mkQuantity 0 degree) 4 degree = Return vs
    /\ Z.of_nat (length vs) = 4%Z
    /\ Forall (fun v =>
                 unit_vector (vertex_in_radian degree v)
                 = unit_vector (in_radian (mkQuantity 180 degree, mkQuantity 45 degree))
                 /\ (0 <= value (to (mkQuantity 180 degree) radian) < 2 * PI ->
                     - (PI / 2) < value (to (mkQuantity 45 degree) radian) < PI / 2 ->
                     vertex_in_radian degree v
                     = in_radian (mkQuantity 180 degree, mkQuantity 45 degree))) vs.
Proof.
  apply (zero_radius_collapses true (mkQuantity 180 degree) (mkQuantity 45 degree)
           (mkQuantity 0 degree) 4 degree).
  - unfold to, unit_scale; cbn [value unit]. lra.
  - lia.
Defined.

(** C7 as stated fails for a centre longitude outside [0, 2 pi): with the
    centre at (-90 degrees, 0) and a radius of zero the one vertex is not
    the centre pair. *)
Lemma zero_radius_vertex_differs_from_center :
  exists vs,
    SphericalCircle true (mkQuantity (-90) degree, mkQuantity 0 degree)
      (mkQuantity 0 degree) 1 degree = Return vs
    /\ ~ Forall (fun v => vertex_in_radian degree v
                          = in_radian (mkQuantity (-90) degree, mkQuantity 0 degree)) vs.
Proof.
  eexists. split; [apply (SphericalCircle_nat true _ _ _ 1)|].
  cbn [seq map]. intros HF. inversion HF as [|v l Hv _]; subst.
  unfold circle_vertex in Hv. rewrite vertex_in_radian_in_vertex_unit in Hv.
  apply (f_equal fst) in Hv. unfold rotated_point in Hv.
  match type of Hv with
  | fst (UnitSpherical.point_from_cartesian ?w) = _ =>
      pose proof (longitude_range w) as [Hlo _]
  end.
  rewrite Hv in Hlo.
  unfold in_radian, to, unit_scale in Hlo; cbn [fst value unit] in Hlo.
  pose proof PI_RGT_0. lra.
Qed.

(** C8, as amended.  With a resolution of zero the constructor returns the
    empty vertex sequence; with a negative resolution it raises, the array
    routines rejecting the negative count. *)
Theorem degenerate_resolution (ht : bool) (center : Quantity * Quantity)
    (radius : Quantity) (resolution : Z) (u : AngleUnit) :
  (resolution <= 0)%Z ->
  SphericalCircle ht center radius resolution u
  = if (resolution =? 0)%Z then Return [] else ValueError.
Proof.
  intros H. destruct (Z.eqb_spec resolution 0) as [->|Hne].
  - destruct center as [lon0 lat0].
    apply (SphericalCircle_nat ht lon0 lat0 radius 0 u).
  - apply SphericalCircle_negative. lia.
Qed.

Lemma degenerate_resolution_witness :
  SphericalCircle true (mkQuantity 0 degree, mkQuantity 0 degree)
    (mkQuantity 10 degree) 0 degree = Return [].
Proof.
  apply (degenerate_resolution true (mkQuantity 0 degree, mkQuantity 0 degree)
           (mkQuantity 10 degree) 0 degree).
  lia.
Defined.

(** C8 as stated fails for a negative resolution: the construction raises. *)
Lemma negative_resolution_raises :
  SphericalCircle true (mkQuantity 0 degree, mkQuantity 0 degree)
    (mkQuantity 10 degree) (-1) degree = ValueError.
Proof. reflexivity. Qed.

(** * Further properties of the three functions *)

(** ** [_transform_cartesian] *)

(** X1. [_transform_cartesian] keeps the shape of the representation: the
    result has as many points as the argument, for every matrix. *)
Theorem transform_cartesian_keeps_shape (representation : CartesianRepresentation)
    (matrix : Matrix) :
  length (_transform_cartesian representation matrix) = length representation.
Proof.
  rewrite transform_cartesian_pointwise. apply length_map.
Qed.

Lemma mat_apply_identity (v : Vec3) : mat_apply identity_matrix v = v.
Proof.
  destruct v as [x y z]. unfold mat_apply, identity_matrix, dot.
  cbn [vx vy vz row0 row1 row2]. f_equal; ring.
Qed.

(** X2. With the identity matrix [_transform_cartesian] returns the
    representation unchanged. *)
Theorem transform_cartesian_identity (representation : CartesianRepresentation) :
  _transform_cartesian representation identity_matrix = representation.
Proof.
  rewrite transform_cartesian_pointwise.
  erewrite map_ext; [apply map_id | apply mat_apply_identity].
Qed.

(** X3. Transforming by [a] and then by [b] is transforming once by the
    matrix product [b * a]. *)
Theorem transform_cartesian_compose (representation : CartesianRepresentation)
    (a b : Matrix) :
  _transform_cartesian (_transform_cartesian representation a) b
  = _transform_cartesian representation (mat_mul b a).
Proof.
  rewrite !transform_cartesian_pointwise, map_map.
  apply map_ext. intros v. symmetry. apply mat_apply_mul.
Qed.

(** ** [_rotate_polygon] *)

Lemma combine_fst_snd (A B : Type) (l : list (A * B)) :
  combine (map fst l) (map snd l) = l.
Proof.
  induction l as [|[a b] l IH]; simpl; [reflexivity | now rewrite IH].
Qed.

Lemma rotate_polygon_arrays (ht : bool) (lon lat : QuantityArray)
    (lon0 lat0 : Quantity) :
  let p := map (rotated_point lon0 lat0) (polygon_points lon lat) in
  _rotate_polygon ht lon lat lon0 lat0
  = (mkQArray (map fst p) radian, mkQArray (map snd p) radian).
Proof.
  intros p. unfold _rotate_polygon. cbv zeta. fold (R1 lat0) (R2 lon0).
  rewrite transform_cartesian_pointwise.
  replace (if ht then _ else _)
    with (map (mat_apply (mat_mul (R2 lon0) (R1 lat0)))
            (UnitSpherical.to_cartesian (UnitSpherical.make lon lat)))
    by (destruct ht; reflexivity).
  assert (E : UnitSpherical.from_cartesian
                (map (mat_apply (mat_mul (R2 lon0) (R1 lat0)))
                   (UnitSpherical.to_cartesian (UnitSpherical.make lon lat))) = p).
  { subst p. unfold UnitSpherical.from_cartesian, UnitSpherical.to_cartesian,
      UnitSpherical.make, polygon_points.
    rewrite !map_map.
    generalize (values (array_to lon radian)) (values (array_to lat radian)).
    intros a; induction a as [|x a IH]; intros [|y b]; simpl; try reflexivity.
    now rewrite IH. }
  unfold UnitSpherical.lon, UnitSpherical.lat. now rewrite E.
Qed.

Lemma rotated_polygon_points_map (ht : bool) (lon lat : QuantityArray)
    (lon0 lat0 : Quantity) :
  rotated_polygon_points ht lon lat lon0 lat0
  = map (rotated_point lon0 lat0) (polygon_points lon lat).
Proof.
  unfold rotated_polygon_points. rewrite rotate_polygon_arrays. cbn [fst snd].
  unfold polygon_points at 1. rewrite !array_to_radian. apply combine_fst_snd.
Qed.

Lemma unit_vector_wrap (a b : R) :
  unit_vector (wrap_longitude a, b) = unit_vector (a, b).
Proof.
  unfold unit_vector, UnitSpherical.point_to_cartesian; cbn [fst snd].
  now rewrite cos_wrap_longitude, sin_wrap_longitude.
Qed.

Lemma rotated_vector' (lon0 lat0 : Quantity) (p : R * R) :
  unit_vector (rotated_point lon0 lat0 p)
  = mat_apply (mat_mul (R2 lon0) (R1 lat0)) (unit_vector p).
Proof.
  rewrite rotated_vector, unit_vector_wrap. now destruct p.
Qed.

(** X4. Whatever the input arrays and the centre, [_rotate_polygon] returns
    two radian arrays with every longitude in [0, 2 pi) and every latitude
    in [-pi/2, pi/2]. *)
Theorem rotate_polygon_canonical (ht : bool) (lon lat : QuantityArray)
    (lon0 lat0 : Quantity) :
  let out := _rotate_polygon ht lon lat lon0 lat0 in
  aunit (fst out) = radian /\ aunit (snd out) = radian
  /\ Forall (fun x => 0 <= x < 2 * PI) (values (fst out))
  /\ Forall (fun x => - (PI / 2) <= x <= PI / 2) (values (snd out)).
Proof.
  rewrite rotate_polygon_arrays. cbn [fst snd aunit values].
  split; [reflexivity|]. split; [reflexivity|].
  rewrite !map_map.
  split; apply Forall_forall; intros x Hx; apply in_map_iff in Hx;
    destruct Hx as [p [<- _]]; unfold rotated_point.
  - apply longitude_range.
  - apply latitude_range.
Qed.

(** X5. For longitude and latitude arrays of the same length n both arrays
    returned by [_rotate_polygon] have length n. *)
Theorem rotate_polygon_keeps_length (ht : bool) (lon lat : QuantityArray)
    (lon0 lat0 : Quantity) (n : nat) :
  length (values lon) = n -> length (values lat) = n ->
  let out := _rotate_polygon ht lon lat lon0 lat0 in
  length (values (fst out)) = n /\ length (values (snd out)) = n.
Proof.
  intros Hlon Hlat. rewrite rotate_polygon_arrays. cbn [fst snd values].
  unfold polygon_points, array_to; cbn [values].
  rewrite !length_map, length_combine, !length_map. lia.
Qed.

Lemma rotate_polygon_keeps_length_witness :
  let out := _rotate_polygon false (mkQArray [0; 90; 180] degree)
               (mkQArray [80; 80; 80] degree)
               (mkQuantity 30 degree) (mkQuantity 45 degree) in
  length (values (fst out)) = 3%nat /\ length (values (snd out)) = 3%nat.
Proof.
  apply (rotate_polygon_keeps_length false (mkQArray [0; 90; 180] degree)
           (mkQArray [80; 80; 80] degree)); reflexivity.
Defined.

(** X6. [_rotate_polygon] moves the north pole to the centre: every input
    point with latitude pi/2, whatever its longitude, comes out as the point
    of the sphere at (lon0, lat0), and with exactly the coordinates
    (lon0, lat0) when lon0 lies in [0, 2 pi) and lat0 strictly between
    -pi/2 and pi/2. *)
Theorem rotate_polygon_pole_to_center (ht : bool) (lon lat : QuantityArray)
    (lon0 lat0 : Quantity) :
  Forall (fun p => snd p = PI / 2) (polygon_points lon lat) ->
  Forall (fun p =>
            unit_vector p = unit_vector (in_radian (lon0, lat0))
            /\ (0 <= value (to lon0 radian) < 2 * PI ->
                - (PI / 2) < value (to lat0 radian) < PI / 2 ->
                p = in_radian (lon0, lat0)))
    (rotated_polygon_points ht lon lat lon0 lat0).
Proof.
  intros Hpole. rewrite rotated_polygon_points_map.
  apply Forall_forall. intros q Hq. apply in_map_iff in Hq.
  destruct Hq as [p [<- Hp]].
  rewrite Forall_forall in Hpole. specialize (Hpole p Hp).
  assert (E : unit_vector (rotated_point lon0 lat0 p)
              = unit_vector (in_radian (lon0, lat0))).
  { rewrite rotated_vector', <- pole_to_center. f_equal.
    unfold unit_vector, UnitSpherical.point_to_cartesian.
    rewrite Hpole, cos_PI2, sin_PI2. now rewrite !Rmult_0_l. }
  split; [exact E|].
  intros Hlon Hlat. apply unit_vector_inj.
  - apply longitude_range.
  - exact Hlon.
  - apply latitude_range.
  - exact Hlat.
  - exact E.
Qed.

Lemma rotate_polygon_pole_to_center_witness :
  Forall (fun p =>
            unit_vector p
            = unit_vector (in_radian (mkQuantity 30 degree, mkQuantity 45 degree))
            /\ (0 <= value (to (mkQuantity 30 degree) radian) < 2 * PI ->
                - (PI / 2) < value (to (mkQuantity 45 degree) radian) < PI / 2 ->
                p = in_radian (mkQuantity 30 degree, mkQuantity 45 degree)))
    (rotated_polygon_points true (mkQArray [210] degree) (mkQArray [90] degree)
       (mkQuantity 30 degree) (mkQuantity 45 degree)).
Proof.
  apply rotate_polygon_pole_to_center.
  unfold polygon_points, array_to, unit_scale; cbn [values aunit map combine].
  constructor; [cbn [snd]; field | constructor].
Defined.

(** X7. [_rotate_polygon] keeps great-circle distances: the distance between
    the i-th and the j-th returned point is the distance between the i-th
    and the j-th input point. *)
Theorem rotate_polygon_keeps_distances (ht : bool) (lon lat : QuantityArray)
    (lon0 lat0 : Quantity) (i j : nat) (p q : R * R) :
  nth_error (polygon_points lon lat) i = Some p ->
  nth_error (polygon_points lon lat) j = Some q ->
  exists p' q',
    nth_error (rotated_polygon_points ht lon lat lon0 lat0) i = Some p'
    /\ nth_error (rotated_polygon_points ht lon lat lon0 lat0) j = Some q'
    /\ great_circle_distance p' q' = great_circle_distance p q.
Proof.
  intros Hp Hq. rewrite rotated_polygon_points_map.
  exists (rotated_point lon0 lat0 p), (rotated_point lon0 lat0 q).
  rewrite !nth_error_map, Hp, Hq. split; [reflexivity|]. split; [reflexivity|].
  rewrite !great_circle_distance_dot, !rotated_vector'.
  now rewrite pole_to_center_preserves_dot.
Qed.

Lemma rotate_polygon_keeps_distances_witness :
  exists p' q',
    nth_error (rotated_polygon_points true (mkQArray [0; 1] radian)
                 (mkQArray [0; 1] radian)
                 (mkQuantity 30 degree) (mkQuantity 45 degree)) 0 = Some p'
    /\ nth_error (rotated_polygon_points true (mkQArray [0; 1] radian)
                    (mkQArray [0; 1] radian)
                    (mkQuantity 30 degree) (mkQuantity 45 degree)) 1 = Some q'
    /\ great_circle_distance p' q'
       = great_circle_distance (0 * (1 / 1), 0 * (1 / 1)) (1 * (1 / 1), 1 * (1 / 1)).
Proof.
  apply (rotate_polygon_keeps_distances true (mkQArray [0; 1] radian)
           (mkQArray [0; 1] radian)); reflexivity.
Defined.

(** X8. Rotating to the pole itself (lon0 = 0, lat0 = pi/2) changes nothing
    but the representation of the longitudes: every point with a latitude
    strictly between -pi/2 and pi/2 keeps its latitude and gets its
    longitude wrapped into [0, 2 pi). *)
Theorem rotate_polygon_to_pole (ht : bool) (lon lat : QuantityArray)
    (lon0 lat0 : Quantity) :
  value (to lon0 radian) = 0 ->
  value (to lat0 radian) = PI / 2 ->
  Forall (fun p => - (PI / 2) < snd p < PI / 2) (polygon_points lon lat) ->
  rotated_polygon_points ht lon lat lon0 lat0
  = map (fun p => (wrap_longitude (fst p), snd p)) (polygon_points lon lat).
Proof.
  intros Hlon0 Hlat0 Hlat. rewrite rotated_polygon_points_map.
  rewrite Forall_forall in Hlat.
  apply map_ext_in. intros [a b] Hp. specialize (Hlat _ Hp). cbn [fst snd] in *.
  apply unit_vector_inj; cbn [fst snd].
  - apply longitude_range.
  - apply wrap_longitude_range.
  - apply latitude_range.
  - exact Hlat.
  - rewrite rotated_vector', unit_vector_wrap.
    rewrite mat_apply_mul, R1_entries, R2_entries, Hlon0, Hlat0.
    rewrite sin_PI2, cos_PI2, sin_0, cos_0.
    unfold unit_vector, UnitSpherical.point_to_cartesian, mat_apply, dot.
    cbn [vx vy vz row0 row1 row2 fst snd]. f_equal; ring.
Qed.

Lemma rotate_polygon_to_pole_witness :
  rotated_polygon_points true (mkQArray [-1] radian) (mkQArray [1] radian)
    (mkQuantity 0 degree) (mkQuantity 90 degree)
  = map (fun p => (wrap_longitude (fst p), snd p))
      (polygon_points (mkQArray [-1] radian) (mkQArray [1] radian)).
Proof.
  pose proof PI2_1 as Hpi.
  apply rotate_polygon_to_pole.
  - unfold to, unit_scale; cbn [value unit]. field.
  - unfold to, unit_scale; cbn [value unit]. field.
  - unfold polygon_points, array_to, unit_scale; cbn [values aunit map combine].
    constructor; [cbn [snd]; lra | constructor].
Defined.

(** ** [SphericalCircle] *)

Lemma ring_longitude_range (n k : nat) :
  (k < n)%nat -> 0 <= INR k * (2 * PI / INR n) < 2 * PI.
Proof.
  intros Hk. pose proof PI_RGT_0 as Hpi.
  assert (Hkn : INR k < INR n) by (apply lt_INR; lia).
  assert (Hk0 : 0 <= INR k) by apply pos_INR.
  assert (Hn : 0 < INR n) by lra.
  assert (E : INR k * (2 * PI / INR n) = 2 * PI * (INR k / INR n)) by (field; lra).
  assert (Hq : 0 <= INR k / INR n < 1).
  { split.
    - apply Rmult_le_pos; [lra | left; now apply Rinv_0_lt_compat].
    - apply Rmult_lt_reg_r with (INR n); [lra|].
      unfold Rdiv. rewrite Rmult_assoc, Rinv_l by lra. lra. }
  rewrite E. split; nra.
Qed.

Lemma pole_to_center_injective (lon0 lat0 : Quantity) (a b : Vec3) :
  mat_apply (mat_mul (R2 lon0) (R1 lat0)) a
  = mat_apply (mat_mul (R2 lon0) (R1 lat0)) b -> a = b.
Proof.
  intros E.
  assert (H : forall w, dot a w = dot b w).
  { intros w. rewrite <- (pole_to_center_preserves_dot lon0 lat0 a w), E.
    apply pole_to_center_preserves_dot. }
  pose proof (H (mkVec 1 0 0)) as Hx.
  pose proof (H (mkVec 0 1 0)) as Hy.
  pose proof (H (mkVec 0 0 1)) as Hz.
  destruct a as [a1 a2 a3], b as [b1 b2 b3].
  unfold dot in Hx, Hy, Hz; cbn [vx vy vz] in Hx, Hy, Hz.
  f_equal; lra.
Qed.

Lemma mat_apply_opp (m : Matrix) (v : Vec3) :
  mat_apply m (vec_opp v) = vec_opp (mat_apply m v).
Proof.
  destruct v as [x y z]. unfold mat_apply, vec_opp, dot; cbn [vx vy vz].
  f_equal; ring.
Qed.

(** The cosine of the angle between two vertices of the circle. *)
Lemma vertex_dot_vertex (lon0 lat0 radius : Quantity) (n j k : nat) :
  let r := value (to radius radian) in
  dot (unit_vector (rotated_point lon0 lat0 (ring_point radius n j)))
      (unit_vector (rotated_point lon0 lat0 (ring_point radius n k)))
  = sin r * sin r * cos (INR j * (2 * PI / INR n) - INR k * (2 * PI / INR n))
    + cos r * cos r.
Proof.
  intros r. rewrite !rotated_vector, pole_to_center_preserves_dot, !ring_vector.
  fold r. unfold dot; cbn [vx vy vz]. rewrite cos_minus. ring.
Qed.



(** X10. For a radius strictly between 0 and pi no two vertices of the
    returned sequence coincide. *)
Theorem vertices_distinct (ht : bool) (center : Quantity * Quantity)
    (radius : Quantity) (resolution : Z) (u : AngleUnit) (vs : list (R * R)) :
  0 < value (to radius radian) < PI ->
  SphericalCircle ht center radius resolution u = Return vs ->
  NoDup vs.
Proof.
  intros Hr E. destruct center as [lon0 lat0].
  destruct (Z_lt_ge_dec resolution 0) as [Hneg|Hpos].
  { rewrite SphericalCircle_negative in E by exact Hneg. discriminate. }
  rewrite SphericalCircle_nonnegative in E by lia. injection E as <-.
  set (n := Z.to_nat resolution).
  apply NoDup_map_NoDup_ForallPairs; [|apply seq_NoDup].
  intros j k Hj Hk Ejk. apply in_seq in Hj, Hk.
  unfold circle_vertex in Ejk.
  apply (f_equal (vertex_in_radian u)) in Ejk.
  rewrite !vertex_in_radian_in_vertex_unit in Ejk.
  apply (f_equal unit_vector) in Ejk. rewrite !rotated_vector in Ejk.
  apply pole_to_center_injective in Ejk. rewrite !ring_vector in Ejk.
  injection Ejk as Ec Es.
  assert (Hsin : 0 < sin (value (to radius radian))) by (apply sin_gt_0; lra).
  apply Rmult_eq_reg_l in Ec; [|apply Rgt_not_eq; exact Hsin].
  apply Rmult_eq_reg_l in Es; [|apply Rgt_not_eq; exact Hsin].
  pose proof (ring_longitude_range n j ltac:(lia)) as Rj.
  pose proof (ring_longitude_range n k ltac:(lia)) as Rk.
  assert (Et : INR j * (2 * PI / INR n) = INR k * (2 * PI / INR n))
    by (apply angle_unique; [lra | exact Ec | exact Es]).
  apply INR_eq. apply Rmult_eq_reg_r in Et; [exact Et|].
  pose proof PI_RGT_0 as Hpi.
  assert (Hn : 0 < INR n) by (apply (lt_INR 0); lia).
  apply Rgt_not_eq. apply Rdiv_lt_0_compat; lra.
Qed.

Lemma vertices_distinct_witness :
  exists vs,
    SphericalCircle true (mkQuantity 180 degree, mkQuantity 45 degree)
      (mkQuantity 5 degree) 36 degree = Return vs
    /\ length vs = 36%nat /\ NoDup vs.
Proof.
  eexists. split; [reflexivity|]. split; [reflexivity|].
  apply (vertices_distinct true (mkQuantity 180 degree, mkQuantity 45 degree)
           (mkQuantity 5 degree) 36 degree).
  - unfold to, unit_scale; cbn [value unit]. pose proof PI_RGT_0. lra.
  - reflexivity.
Defined.

Lemma cos_ring_step (n k : nat) :
  (k < n)%nat ->
  cos (INR k * (2 * PI / INR n) - INR (S k mod n) * (2 * PI / INR n))
  = cos (2 * PI / INR n).
Proof.
  intros Hk. pose proof PI_RGT_0 as Hpi.
  assert (Hn : 0 < INR n) by (apply (lt_INR 0); lia).
  destruct (Nat.eq_dec (S k) n) as [E|E].
  - rewrite E, Nat.Div0.mod_same. cbn [INR].
    replace (INR k) with (INR n - 1) by (rewrite <- E, S_INR; ring).
    replace ((INR n - 1) * (2 * PI / INR n) - 0 * (2 * PI / INR n))
      with (- (2 * PI / INR n) + 2 * IZR 1 * PI) by (field; lra).
    now rewrite cos_period_Z, cos_neg.
  - rewrite Nat.mod_small by lia. rewrite S_INR.
    replace (INR k * (2 * PI / INR n) - (INR k + 1) * (2 * PI / INR n))
      with (- (2 * PI / INR n)) by ring.
    apply cos_neg.
Qed.

(** X11. The vertices are equally spaced around the circle: the
    great-circle distance from each vertex to the next one, and from the
    last one back to the first, is the same, with cosine
    sin(r)^2 cos(2 pi / n) + cos(r)^2 for n vertices and radius r. *)
Theorem vertices_equally_spaced (ht : bool) (center : Quantity * Quantity)
    (radius : Quantity) (resolution : Z) (u : AngleUnit) (vs : list (R * R))
    (k : nat) (a b : R * R) :
  SphericalCircle ht center radius resolution u = Return vs ->
  nth_error vs k = Some a ->
  nth_error vs (S k mod length vs) = Some b ->
  let r := value (to radius radian) in
  great_circle_distance (vertex_in_radian u a) (vertex_in_radian u b)
  = acos (sin r * sin r * cos (2 * PI / INR (length vs)) + cos r * cos r).
Proof.
  intros E Ha Hb r. destruct center as [lon0 lat0].
  destruct (Z_lt_ge_dec resolution 0) as [Hneg|Hpos].
  { rewrite SphericalCircle_negative in E by exact Hneg. discriminate. }
  rewrite SphericalCircle_nonnegative in E by lia. injection E as <-.
  set (n := Z.to_nat resolution) in *.
  rewrite length_map, length_seq in *.
  rewrite nth_error_map, nth_error_seq in Ha, Hb.
  destruct (Nat.ltb_spec k n) as [Hk|Hk]; [|discriminate].
  destruct (Nat.ltb_spec (S k mod n) n) as [Hk'|Hk']; [|discriminate].
  cbn [option_map Nat.add] in Ha, Hb.
  injection Ha as <-. injection Hb as <-.
  unfold circle_vertex. rewrite !vertex_in_radian_in_vertex_unit.
  rewrite great_circle_distance_dot, vertex_dot_vertex.
  fold r. now rewrite cos_ring_step.
Qed.

Lemma vertices_equally_spaced_witness :
  exists vs a b,
    SphericalCircle true (mkQuantity 0 degree, mkQuantity 0 degree)
      (mkQuantity 10 degree) 4 degree = Return vs
    /\ nth_error vs 3 = Some a /\ nth_error vs 0 = Some b
    /\ great_circle_distance (vertex_in_radian degree a) (vertex_in_radian degree b)
       = acos (sin (value (to (mkQuantity 10 degree) radian))
               * sin (value (to (mkQuantity 10 degree) radian))
               * cos (2 * PI / INR (length vs))
               + cos (value (to (mkQuantity 10 degree) radian))
                 * cos (value (to (mkQuantity 10 degree) radian))).
Proof.
  do 3 eexists. split; [reflexivity|]. split; [reflexivity|]. split; [reflexivity|].
  apply (vertices_equally_spaced true (mkQuantity 0 degree, mkQuantity 0 degree)
           (mkQuantity 10 degree) 4 degree _ 3); reflexivity.
Defined.

(** X12. With a radius of pi every vertex is the point of the sphere
    opposite to the centre. *)
Theorem radius_pi_antipode (ht : bool) (lon0 lat0 radius : Quantity)
    (resolution : Z) (u : AngleUnit) (vs : list (R * R)) :
  value (to radius radian) = PI ->
  SphericalCircle ht (lon0, lat0) radius resolution u = Return vs ->
  Forall (fun v => unit_vector (vertex_in_radian u v)
                   = vec_opp (unit_vector (in_radian (lon0, lat0)))) vs.
Proof.
  intros Hr. apply SphericalCircle_Forall. intros n k.
  unfold circle_vertex. rewrite vertex_in_radian_in_vertex_unit.
  rewrite rotated_vector, ring_vector, Hr, sin_PI, cos_PI.
  rewrite <- pole_to_center, <- mat_apply_opp. f_equal.
  unfold vec_opp; cbn [vx vy vz]. f_equal; ring.
Qed.

Lemma radius_pi_antipode_witness :
  exists vs,
    SphericalCircle true (mkQuantity 30 degree, mkQuantity 45 degree)
      (mkQuantity 180 degree) 3 degree = Return vs
    /\ length vs = 3%nat
    /\ Forall (fun v => unit_vector (vertex_in_radian degree v)
                        = vec_opp (unit_vector
                                     (in_radian (mkQuantity 30 degree,
                                                 mkQuantity 45 degree)))) vs.
Proof.
  eexists. split; [reflexivity|]. split; [reflexivity|].
  apply (radius_pi_antipode true (mkQuantity 30 degree) (mkQuantity 45 degree)
           (mkQuantity 180 degree) 3 degree).
  - unfold to, unit_scale; cbn [value unit]. field.
  - reflexivity.
Defined.

(** X13. The first vertex lies on the meridian of the centre, a radius
    below it: for a resolution of at least one, a centre longitude in
    [0, 2 pi) and lat0 - r strictly between -pi/2 and pi/2, the first vertex
    is (lon0, lat0 - r). *)
Theorem first_vertex_below_center (ht : bool) (lon0 lat0 radius : Quantity)
    (resolution : Z) (u : AngleUnit) :
  (1 <= resolution)%Z ->
  0 <= value (to lon0 radian) < 2 * PI ->
  - (PI / 2) < value (to lat0 radian) - value (to radius radian) < PI / 2 ->
  exists v rest,
    SphericalCircle ht (lon0, lat0) radius resolution u = Return (v :: rest)
    /\ vertex_in_radian u v
       = (value (to lon0 radian), value (to lat0 radian) - value (to radius radian)).
Proof.
  intros Hres Hlon Hlat.
  rewrite SphericalCircle_nonnegative by lia.
  destruct (Z.to_nat resolution) as [|m] eqn:En; [lia|].
  cbn [seq map]. do 2 eexists. split; [reflexivity|].
  unfold circle_vertex. rewrite vertex_in_radian_in_vertex_unit.
  apply unit_vector_inj; cbn [fst snd].
  - apply longitude_range.
  - exact Hlon.
  - apply latitude_range.
  - exact Hlat.
  - rewrite rotated_vector, ring_vector.
    rewrite mat_apply_mul, R1_entries, R2_entries.
    cbn [INR]. rewrite Rmult_0_l, cos_0, sin_0.
    unfold unit_vector, UnitSpherical.point_to_cartesian, mat_apply, dot.
    cbn [vx vy vz row0 row1 row2 fst snd].
    rewrite cos_minus, sin_minus. f_equal; ring.
Qed.

Lemma first_vertex_below_center_witness :
  exists v rest,
    SphericalCircle true (mkQuantity 180 degree, mkQuantity 45 degree)
      (mkQuantity 5 degree) 36 degree = Return (v :: rest)
    /\ vertex_in_radian degree v
       = (value (to (mkQuantity 180 degree) radian),
          value (to (mkQuantity 45 degree) radian)
          - value (to (mkQuantity 5 degree) radian)).
Proof.
  pose proof PI_RGT_0 as Hpi.
  apply (first_vertex_below_center true (mkQuantity 180 degree)
           (mkQuantity 45 degree) (mkQuantity 5 degree) 36 degree).
  - lia.
  - unfold to, unit_scale; cbn [value unit]. lra.
  - unfold to, unit_scale; cbn [value unit]. lra.
Defined.
